(** * Parameterised SQL query builder of [db.py]

    A shallow embedding of the class [DB] of
    [HW1-Part2-Programming/src/db/db.py]: the four static builders
    [build_select_query], [build_insert_query], [build_update_query] and
    [build_delete_query], the executor [execute_query] and the four wrapper
    methods, followed by the properties the specification states about
    them.

    Python [str] is modelled by [string], a [Dict[str, Any]] by the list of
    its items in insertion order together with a proof that its keys are
    pairwise distinct, and the [pymysql] connection by an abstract driver
    interface threaded through a small state-and-error monad. *)

From Stdlib Require Import String Ascii List Bool ZArith Arith DecimalString Lia.
Import ListNotations.

Open Scope list_scope.
Open Scope string_scope.

(** ** Python strings *)

Module PyStr.

(** [sep.join(ls)] *)
Fixpoint join (sep : string) (ls : list string) : string :=
  match ls with
  | [] => ""
  | [x] => x
  | x :: xs => x ++ sep ++ join sep xs
  end.

(** [q[:-n]] for a positive literal [n]: the slice stops at
    [max (len q - n) 0]; the subtraction on [nat] truncates at zero. *)
Definition drop_last (n : nat) (q : string) : string :=
  substring 0 (String.length q - n) q.

(** Last character of a string, if any. *)
Fixpoint last_char (s : string) : option ascii :=
  match s with
  | EmptyString => None
  | String c r =>
      match r with
      | EmptyString => Some c
      | String _ _ => last_char r
      end
  end.

(** First character of a string, if any. *)
Definition head (s : string) : option ascii :=
  match s with
  | EmptyString => None
  | String c _ => Some c
  end.

End PyStr.

(** ** Values and dictionaries *)

(** The scalars a caller binds to a placeholder ([Any] in the source). *)
Inductive value : Type :=
| VNone
| VBool (b : bool)
| VInt (z : Z)
| VStr (s : string).

Module Dict.

Definition item : Type := (string * value)%type.

Fixpoint key_in (k : string) (l : list item) : bool :=
  match l with
  | [] => false
  | (k', _) :: r => (k =? k') || key_in k r
  end.

Fixpoint distinct_keys (l : list item) : bool :=
  match l with
  | [] => true
  | (k, _) :: r => negb (key_in k r) && distinct_keys r
  end.

(** A [Dict[str, Any]]: its items in insertion order; a key occurs once. *)
Record t : Type := mk {
  items : list item;
  items_distinct : distinct_keys items = true
}.

Definition empty : t := mk [] eq_refl.

(** [d.keys()] *)
Definition keys (d : t) : list string := map fst (items d).

(** [d.values()] *)
Definition values (d : t) : list value := map snd (items d).

(** [len(d)] *)
Definition len (d : t) : nat := List.length (items d).

(** [bool(d)], the test of [if d:] *)
Definition truthy (d : t) : bool :=
  match items d with
  | [] => false
  | _ :: _ => true
  end.

Fixpoint lookup (k : string) (l : list item) : option value :=
  match l with
  | [] => None
  | (k', v) :: r => if k =? k' then Some v else lookup k r
  end.

(** [d.get(k)]: the value stored under [k], [None] when [k] is absent. *)
Definition get (d : t) (k : string) : value :=
  match lookup k (items d) with
  | Some v => v
  | None => VNone
  end.

End Dict.

Definition KV : Type := Dict.t.
Definition Query : Type := (string * list value)%type.

(** ** The builders *)

Import PyStr.

(** One turn of the [for k in filters.keys()] loop of [build_select_query],
    on the pair of the two variables [q] and [val_ls] it updates. *)
Definition select_loop_body (filters : KV) (st : Query) (k : string) : Query :=
  let '(q, val_ls) := st in
  let v := Dict.get filters k in
  let val_ls := (val_ls ++ [v])%list in
  let q := (q ++ k) ++ " = %s AND " in
  (q, val_ls).

Definition build_select_query (table : string) (filters : KV) : Query :=
  let q := "SELECT * FROM " ++ table in
  let val_ls := [] in
  if Dict.truthy filters then
    let q := q ++ " WHERE " in
    let '(q, val_ls) :=
      fold_left (select_loop_body filters) (Dict.keys filters) (q, val_ls) in
    let q := drop_last 5 q in
    (q, val_ls)
  else (q, val_ls).

Definition build_insert_query (table : string) (values : KV) : Query :=
  let q := ("INSERT INTO " ++ table) ++ " " in
  let k := ("(" ++ join ", " (Dict.keys values)) ++ ")" in
  let val_ls := Dict.values values in
  let v := ("(" ++ join ", " (map (fun _ => "%s") (Dict.keys values))) ++ ")" in
  let q := ((q ++ k) ++ " VALUES ") ++ v in
  (q, val_ls).

Definition build_update_query (table : string) (values filters : KV) : Query :=
  let q := (("UPDATE " ++ table) ++ " SET ")
             ++ join ", " (map (fun key => key ++ " = %s") (Dict.keys values)) in
  let val_ls := Dict.values values in
  if Dict.truthy filters then
    let q := (q ++ " WHERE ")
               ++ join " AND " (map (fun key => key ++ " = %s") (Dict.keys filters)) in
    let val_ls := (val_ls ++ Dict.values filters)%list in
    (q, val_ls)
  else (q, val_ls).

Definition build_delete_query (table : string) (filters : KV) : Query :=
  let q := "DELETE FROM " ++ table in
  let val_ls := [] in
  if Dict.truthy filters then
    let q := (q ++ " WHERE ")
               ++ join " AND " (map (fun key => key ++ " = %s") (Dict.keys filters)) in
    let val_ls := Dict.values filters in
    (q, val_ls)
  else (q, val_ls).

(** ** The executor and the wrapper methods *)

(** [Union[List[KV], int]], the two shapes [execute_query] returns. *)
Inductive result : Type :=
| Rows (rows : list KV)
| Count (n : Z).

(** What the source uses of [pymysql]: [conn.cursor()], [cur.execute] and
    [cur.fetchall]. [cur.execute] may raise, returns the number of affected
    rows, changes the database behind the connection and leaves the fetched
    rows in the cursor. *)
Class Driver (conn cursor error : Type) : Type := {
  conn_cursor : conn -> cursor;
  cursor_execute :
    cursor -> string -> list value -> conn -> error + (Z * cursor * conn);
  cursor_fetchall : cursor -> list KV
}.

Section Executor.

Context {conn cursor error : Type} `{Driver conn cursor error}.

(** A method of a [DB] object: it reads and updates [self.conn] and either
    raises or returns. *)
Definition M (A : Type) : Type := conn -> error + (A * conn).

Definition ret {A : Type} (a : A) : M A := fun c => inr (a, c).

Definition bind {A B : Type} (m : M A) (k : A -> M B) : M B :=
  fun c =>
    match m c with
    | inl e => inl e
    | inr (a, c') => k a c'
    end.

Notation "x <- m ;; k" := (bind m (fun x => k))
  (at level 61, m at next level, right associativity).
Notation "' p <- m ;; k" := (bind m (fun x => let 'p := x in k))
  (at level 61, p pattern, m at next level, right associativity).

Definition get_cursor : M cursor := fun c => inr (conn_cursor c, c).

(** [count = cur.execute(query, args=args)], with the cursor it updated. *)
Definition execute (cur : cursor) (query : string) (args : list value)
  : M (Z * cursor) :=
  fun c =>
    match cursor_execute cur query args c with
    | inl e => inl e
    | inr (count, cur', c') => inr ((count, cur'), c')
    end.

Definition execute_query (query : string) (args : list value)
  (ret_result : bool) : M result :=
  cur <- get_cursor ;;
  '(count, cur) <- execute cur query args ;;
  if ret_result then ret (Rows (cursor_fetchall cur))
  else ret (Count count).

Definition select (table : string) (filters : KV) : M result :=
  let '(q, val_ls) := build_select_query table filters in
  execute_query q val_ls true.

Definition insert (table : string) (values : KV) : M result :=
  let '(q, val_ls) := build_insert_query table values in
  execute_query q val_ls false.

Definition update (table : string) (values filters : KV) : M result :=
  let '(q, val_ls) := build_update_query table values filters in
  execute_query q val_ls false.

Definition delete (table : string) (filters : KV) : M result :=
  let '(q, val_ls) := build_delete_query table filters in
  execute_query q val_ls false.

(** What a call returned, if it returned: rows, or a count. *)
Definition returns_rows (o : error + (result * conn)) : Prop :=
  match o with
  | inr (Count _, _) => False
  | _ => True
  end.

Definition returns_count (o : error + (result * conn)) : Prop :=
  match o with
  | inr (Rows _, _) => False
  | _ => True
  end.

End Executor.

(** A call of one of the four static builders, with its inputs. *)
Inductive build_call : Type :=
| BuildSelect (table : string) (filters : KV)
| BuildInsert (table : string) (values : KV)
| BuildUpdate (table : string) (values filters : KV)
| BuildDelete (table : string) (filters : KV).

Definition run_build (b : build_call) : Query :=
  match b with
  | BuildSelect table filters => build_select_query table filters
  | BuildInsert table values => build_insert_query table values
  | BuildUpdate table values filters => build_update_query table values filters
  | BuildDelete table filters => build_delete_query table filters
  end.

(** The inputs of a builder call as plain data: which builder, the table
    and the items of each map in iteration order. *)
Inductive builder : Type := Select | Insert | Update | Delete.

Definition build_inputs (b : build_call)
  : builder * string * list (list Dict.item) :=
  match b with
  | BuildSelect table filters => (Select, table, [Dict.items filters])
  | BuildInsert table values => (Insert, table, [Dict.items values])
  | BuildUpdate table values filters =>
      (Update, table, [Dict.items values; Dict.items filters])
  | BuildDelete table filters => (Delete, table, [Dict.items filters])
  end.

(** The strings a builder splices into the query text: the table name and
    every key of every map. *)
Definition spliced_names (b : build_call) : list string :=
  match b with
  | BuildSelect table filters => table :: Dict.keys filters
  | BuildInsert table values => table :: Dict.keys values
  | BuildUpdate table values filters =>
      table :: (Dict.keys values ++ Dict.keys filters)%list
  | BuildDelete table filters => table :: Dict.keys filters
  end.

(** ** Placeholders of a query string *)

Definition is_percent (c : ascii) : bool := Ascii.eqb c "%".
Definition is_s (c : ascii) : bool := Ascii.eqb c "s".

(** Number of occurrences of the placeholder [%s], scanning from the left. *)
Fixpoint placeholder_count (q : string) : nat :=
  match q with
  | EmptyString => 0
  | String c r =>
      if is_percent c then
        match r with
        | EmptyString => 0
        | String c' r' =>
            if is_s c' then S (placeholder_count r') else placeholder_count r
        end
      else placeholder_count r
  end.

(** Positional binding: the n-th [%s] from the left is replaced by the n-th
    element of [args]. [None] when the two numbers differ. *)
Fixpoint bind_args (q : string) (args : list string) {struct q}
  : option string :=
  match q with
  | EmptyString =>
      match args with
      | [] => Some ""
      | _ :: _ => None
      end
  | String c r =>
      if is_percent c then
        match r with
        | EmptyString => option_map (String c) (bind_args r args)
        | String c' r' =>
            if is_s c' then
              match args with
              | [] => None
              | a :: args' => option_map (append a) (bind_args r' args')
              end
            else option_map (String c) (bind_args r args)
        end
      else option_map (String c) (bind_args r args)
  end.

(** The last character of [a] is [%]. *)
Fixpoint ends_percent (a : string) : bool :=
  match a with
  | EmptyString => false
  | String c r =>
      match r with
      | EmptyString => is_percent c
      | String _ _ => ends_percent r
      end
  end.

Definition starts_s (b : string) : bool :=
  match head b with
  | Some c => is_s c
  | None => false
  end.

(** Gluing [a] and [b] creates a placeholder across the seam. *)
Definition straddles (a b : string) : bool := ends_percent a && starts_s b.

(** A name that contains no placeholder. *)
Definition clean (name : string) : Prop := placeholder_count name = 0.

(** ** The statement a query stands for *)

Section Inlined.

(** How the driver writes a bound value into the statement. *)
Variable render : value -> string.

Definition eq_term (it : Dict.item) : string :=
  fst it ++ " = " ++ render (snd it).

Definition where_clause (filters : KV) : string :=
  if Dict.truthy filters
  then " WHERE " ++ join " AND " (map eq_term (Dict.items filters))
  else "".

(** The statement with every value written next to its own column. *)
Definition inlined (b : build_call) : string :=
  match b with
  | BuildSelect table filters =>
      "SELECT * FROM " ++ table ++ where_clause filters
  | BuildInsert table values =>
      "INSERT INTO " ++ table ++ " (" ++ join ", " (Dict.keys values)
        ++ ") VALUES (" ++ join ", " (map render (Dict.values values)) ++ ")"
  | BuildUpdate table values filters =>
      "UPDATE " ++ table ++ " SET "
        ++ join ", " (map eq_term (Dict.items values)) ++ where_clause filters
  | BuildDelete table filters =>
      "DELETE FROM " ++ table ++ where_clause filters
  end.

End Inlined.

(** The items whose values a builder call binds, in binding order. *)
Definition bound_items (b : build_call) : list Dict.item :=
  match b with
  | BuildSelect _ filters => Dict.items filters
  | BuildInsert _ values => Dict.items values
  | BuildUpdate _ values filters =>
      (Dict.items values ++ Dict.items filters)%list
  | BuildDelete _ filters => Dict.items filters
  end.

(** The term [key = %s] the builders emit for a key. *)
Definition placeholder_term (key : string) : string := key ++ " = %s".

(** The text the loop of [build_select_query] has appended to [q] once it
    has passed the keys [ks]. *)
Fixpoint trailing_terms (ks : list string) : string :=
  match ks with
  | [] => ""
  | k :: r => (k ++ " = %s AND ") ++ trailing_terms r
  end.

(** The [WHERE] clause over the keys of [filters]. *)
Definition where_template (filters : KV) : string :=
  " WHERE " ++ join " AND " (map placeholder_term (Dict.keys filters)).

(** What follows the table or the [SET] clause: the [WHERE] clause of a
    non-empty [filters], nothing otherwise. *)
Definition optional_where (filters : KV) : string :=
  if Dict.truthy filters then where_template filters else "".

(** [s] ends with [suffix]. *)
Definition ends_with (suffix s : string) : Prop :=
  exists body, s = body ++ suffix.

(** Sample dictionaries used by the examples below. *)
Definition d_a1 : KV := Dict.mk [("a", VInt 1)] eq_refl.
Definition d_b2 : KV := Dict.mk [("b", VInt 2)] eq_refl.
Definition d_a1_b2 : KV := Dict.mk [("a", VInt 1); ("b", VInt 2)] eq_refl.

(** A rendering of values for the examples, in the manner of SQL
    literals. *)
Definition render_sql (v : value) : string :=
  match v with
  | VNone => "NULL"
  | VBool true => "1"
  | VBool false => "0"
  | VInt z => NilZero.string_of_int (Z.to_int z)
  | VStr s => "'" ++ s ++ "'"
  end.

(** A driver for the examples: the connection is the log of the statements
    run so far, a statement whose placeholders do not match its arguments
    is refused, and every statement reports one row per earlier statement
    and fetches the single row [{"a": 1}]. *)
Definition log_execute (cur : list KV) (q : string) (args : list value)
  (c : list Query) : unit + (Z * list KV * list Query) :=
  if Nat.eqb (placeholder_count q) (List.length args)
  then inr (Z.of_nat (List.length c), [d_a1], (q, args) :: c)
  else inl tt.

#[global] Instance log_driver : Driver (list Query) (list KV) unit := {
  conn_cursor := fun _ => [];
  cursor_execute := log_execute;
  cursor_fetchall := fun cur => cur
}.

(** ** Further views of a builder call *)

(** The part of the inputs that is text: which builder, the table and the
    keys of each map in iteration order, without the values. *)
Definition build_names (b : build_call)
  : builder * string * list (list string) :=
  match b with
  | BuildSelect table filters => (Select, table, [Dict.keys filters])
  | BuildInsert table values => (Insert, table, [Dict.keys values])
  | BuildUpdate table values filters =>
      (Update, table, [Dict.keys values; Dict.keys filters])
  | BuildDelete table filters => (Delete, table, [Dict.keys filters])
  end.

(** The wrapper method that goes with a builder, on the same inputs. *)
Definition call_wrapper {conn cursor error : Type}
  `{Driver conn cursor error} (b : build_call) : @M conn error result :=
  match b with
  | BuildSelect table filters => select table filters
  | BuildInsert table values => insert table values
  | BuildUpdate table values filters => update table values filters
  | BuildDelete table filters => delete table filters
  end.

(** The value of [ret_result] the wrapper passes to [execute_query]. *)
Definition wants_rows (b : build_call) : bool :=
  match b with
  | BuildSelect _ _ => true
  | _ => false
  end.

(** What a call did to the connection, whatever it returned: the error it
    raised or the state it left. *)
Definition effect_of {conn error A : Type} (o : error + (A * conn))
  : error + conn :=
  match o with
  | inl e => inl e
  | inr (_, c) => inr c
  end.

(** A dictionary whose only key is the placeholder itself. *)
Definition d_percent_s : KV := Dict.mk [("%s", VInt 1)] eq_refl.

(** A dictionary whose value is an attempt at injection. *)
Definition d_a_quote : KV :=
  Dict.mk [("a", VStr "x' OR '1'='1")] eq_refl.

(** * Properties *)

Example build_select_a1_b2 :
  build_select_query "T" d_a1_b2
  = ("SELECT * FROM T WHERE a = %s AND b = %s", [VInt 1; VInt 2]).
Proof. reflexivity. Qed.

Example build_insert_a1_b2 :
  build_insert_query "T" d_a1_b2
  = ("INSERT INTO T (a, b) VALUES (%s, %s)", [VInt 1; VInt 2]).
Proof. reflexivity. Qed.

Example build_update_a1_b2 :
  build_update_query "T" d_a1 d_b2
  = ("UPDATE T SET a = %s WHERE b = %s", [VInt 1; VInt 2]).
Proof. reflexivity. Qed.

Example build_update_a1_nofilter :
  build_update_query "T" d_a1 Dict.empty = ("UPDATE T SET a = %s", [VInt 1]).
Proof. reflexivity. Qed.

Example build_delete_a1 :
  build_delete_query "T" d_a1 = ("DELETE FROM T WHERE a = %s", [VInt 1]).
Proof. reflexivity. Qed.

(** ** Strings *)

Lemma append_assoc (a b c : string) : (a ++ b) ++ c = a ++ (b ++ c).
Proof.
  induction a as [|x a IH]; simpl; [reflexivity|].
  now rewrite IH.
Qed.

Lemma append_empty_r (a : string) : a ++ "" = a.
Proof.
  induction a as [|x a IH]; simpl; [reflexivity|].
  now rewrite IH.
Qed.

Lemma substring_prefix (a b : string) :
  substring 0 (String.length a) (a ++ b) = a.
Proof.
  induction a as [|x a IH]; simpl.
  - now destruct b.
  - now rewrite IH.
Qed.

Lemma length_append (a b : string) :
  String.length (a ++ b) = String.length a + String.length b.
Proof.
  induction a as [|x a IH]; simpl; [reflexivity|].
  now rewrite IH.
Qed.

(** [(a + b)[:-len(b)] == a] *)
Lemma drop_last_append (a b : string) :
  drop_last (String.length b) (a ++ b) = a.
Proof.
  unfold drop_last.
  rewrite length_append, Nat.add_sub.
  apply substring_prefix.
Qed.

Lemma append_eq_self (a b : string) : a ++ b = a -> b = "".
Proof.
  induction a as [|x a IH]; simpl; intros E; [exact E|].
  injection E as E. auto.
Qed.

Lemma last_char_append (a : string) (c : ascii) (b : string) :
  last_char (a ++ String c b) = last_char (String c b).
Proof.
  induction a as [|x a IH]; [reflexivity|].
  change (String x a ++ String c b) with (String x (a ++ String c b)).
  destruct a; exact IH.
Qed.

(** ** Dictionaries *)

(** Looking the keys up one by one gives the values in iteration order; the
    prefix [pre] stands for the items the traversal has already passed. *)
Lemma lookup_keys_in_order (l pre : list Dict.item) :
  Dict.distinct_keys (pre ++ l) = true ->
  map (fun k => Dict.lookup k (pre ++ l)) (map fst l) = map (fun it => Some (snd it)) l.
Proof.
  revert pre. induction l as [|[k v] l IH]; intros pre D; [reflexivity|].
  simpl. f_equal.
  - clear IH. induction pre as [|[k' v'] pre IHp]; simpl in *.
    + now rewrite String.eqb_refl.
    + apply andb_prop in D as [D1 D2].
      destruct (k =? k') eqn:E.
      * apply String.eqb_eq in E. subst k'.
        exfalso. apply negb_true_iff in D1.
        clear -D1. induction pre as [|[k2 v2] pre IH]; simpl in *.
        -- now rewrite String.eqb_refl in D1.
        -- apply orb_false_elim in D1 as [_ D1]. auto.
      * auto.
  - specialize (IH (pre ++ [(k, v)])%list).
    rewrite <- app_assoc in IH. simpl in IH. auto.
Qed.

Lemma get_keys_values (d : KV) : map (Dict.get d) (Dict.keys d) = Dict.values d.
Proof.
  unfold Dict.get, Dict.keys, Dict.values.
  pose proof (lookup_keys_in_order (Dict.items d) [] (Dict.items_distinct d)) as L.
  simpl in L.
  rewrite <- (map_map (fun k => Dict.lookup k (Dict.items d))
                      (fun o => match o with Some v => v | None => VNone end)).
  rewrite L, map_map. reflexivity.
Qed.

Lemma truthy_items (d : KV) : Dict.truthy d = true <-> Dict.items d <> [].
Proof.
  unfold Dict.truthy. destruct (Dict.items d); split; congruence.
Qed.

Lemma falsy_items (d : KV) : Dict.truthy d = false <-> Dict.items d = [].
Proof.
  unfold Dict.truthy. destruct (Dict.items d); split; congruence.
Qed.

Lemma keys_length (d : KV) : List.length (Dict.keys d) = Dict.len d.
Proof. apply length_map. Qed.

Lemma values_length (d : KV) : List.length (Dict.values d) = Dict.len d.
Proof. apply length_map. Qed.

(** ** Normal forms of the builders *)

Lemma select_loop_spec (filters : KV) (ks : list string) (q : string)
  (val_ls : list value) :
  fold_left (select_loop_body filters) ks (q, val_ls)
  = (q ++ trailing_terms ks, (val_ls ++ map (Dict.get filters) ks)%list).
Proof.
  revert q val_ls. induction ks as [|k ks IH]; intros q val_ls; simpl.
  - now rewrite append_empty_r, app_nil_r.
  - rewrite IH. f_equal.
    + now rewrite !append_assoc.
    + now rewrite <- app_assoc.
Qed.

(** After the last turn the text ends with one [" AND "] too many. *)
Lemma trailing_terms_join (ks : list string) :
  ks <> [] ->
  trailing_terms ks = join " AND " (map placeholder_term ks) ++ " AND ".
Proof.
  induction ks as [|k ks IH]; [congruence|]. intros _.
  destruct ks as [|k' ks].
  - simpl. unfold placeholder_term.
    now rewrite append_empty_r, !append_assoc.
  - change (trailing_terms (k :: k' :: ks))
      with ((k ++ " = %s AND ") ++ trailing_terms (k' :: ks)).
    rewrite IH by congruence.
    change (join " AND " (map placeholder_term (k :: k' :: ks)))
      with (placeholder_term k
              ++ " AND " ++ join " AND " (map placeholder_term (k' :: ks))).
    unfold placeholder_term at 2.
    now rewrite !append_assoc.
Qed.

Lemma keys_nonempty (d : KV) : Dict.items d <> [] -> Dict.keys d <> [].
Proof.
  unfold Dict.keys. destruct (Dict.items d); simpl; congruence.
Qed.

Lemma select_filters_eq (table : string) (filters : KV) :
  Dict.items filters <> [] ->
  build_select_query table filters
  = ("SELECT * FROM " ++ table ++ where_template filters, Dict.values filters).
Proof.
  intros NE. unfold build_select_query.
  apply truthy_items in NE as Tr. rewrite Tr.
  rewrite select_loop_spec.
  rewrite trailing_terms_join by now apply keys_nonempty.
  rewrite get_keys_values. f_equal.
  rewrite <- append_assoc.
  change 5 with (String.length " AND ").
  rewrite drop_last_append.
  unfold where_template. now rewrite !append_assoc.
Qed.

Lemma select_empty_eq (table : string) (filters : KV) :
  Dict.items filters = [] ->
  build_select_query table filters = ("SELECT * FROM " ++ table, []).
Proof.
  intros E. unfold build_select_query.
  apply falsy_items in E. now rewrite E.
Qed.

Lemma insert_eq (table : string) (values : KV) :
  build_insert_query table values
  = ("INSERT INTO " ++ table ++ " (" ++ join ", " (Dict.keys values)
       ++ ") VALUES (" ++ join ", " (map (fun _ => "%s") (Dict.keys values))
       ++ ")",
     Dict.values values).
Proof.
  unfold build_insert_query. f_equal.
  now rewrite !append_assoc.
Qed.

Lemma update_filters_eq (table : string) (values filters : KV) :
  Dict.items filters <> [] ->
  build_update_query table values filters
  = ("UPDATE " ++ table ++ " SET "
       ++ join ", " (map placeholder_term (Dict.keys values))
       ++ where_template filters,
     (Dict.values values ++ Dict.values filters)%list).
Proof.
  intros NE. unfold build_update_query.
  apply truthy_items in NE. rewrite NE. f_equal.
  unfold where_template. now rewrite !append_assoc.
Qed.

Lemma update_empty_eq (table : string) (values filters : KV) :
  Dict.items filters = [] ->
  build_update_query table values filters
  = ("UPDATE " ++ table ++ " SET "
       ++ join ", " (map placeholder_term (Dict.keys values)),
     Dict.values values).
Proof.
  intros E. unfold build_update_query.
  apply falsy_items in E. rewrite E. f_equal.
  now rewrite !append_assoc.
Qed.

Lemma delete_filters_eq (table : string) (filters : KV) :
  Dict.items filters <> [] ->
  build_delete_query table filters
  = ("DELETE FROM " ++ table ++ where_template filters, Dict.values filters).
Proof.
  intros NE. unfold build_delete_query.
  apply truthy_items in NE. rewrite NE. f_equal.
  unfold where_template. now rewrite !append_assoc.
Qed.

Lemma delete_empty_eq (table : string) (filters : KV) :
  Dict.items filters = [] ->
  build_delete_query table filters = ("DELETE FROM " ++ table, []).
Proof.
  intros E. unfold build_delete_query.
  apply falsy_items in E. now rewrite E.
Qed.

(** A non-empty list of terms joined by any separator ends with the
    placeholder of its last term. *)
Lemma join_terms_ends (sep : string) (ks : list string) :
  ks <> [] -> ends_with " = %s" (join sep (map placeholder_term ks)).
Proof.
  induction ks as [|k ks IH]; [congruence|]. intros _.
  destruct ks as [|k' ks].
  - exists k. reflexivity.
  - destruct IH as [body E]; [congruence|].
    exists (placeholder_term k ++ sep ++ body).
    change (join sep (map placeholder_term (k :: k' :: ks)))
      with (placeholder_term k
              ++ sep ++ join sep (map placeholder_term (k' :: ks))).
    rewrite E. now rewrite !append_assoc.
Qed.

Lemma ends_with_prepend (suffix a s : string) :
  ends_with suffix s -> ends_with suffix (a ++ s).
Proof.
  intros [body E]. exists (a ++ body). now rewrite E, append_assoc.
Qed.

(** A string that ends with a placeholder does not end with a keyword. *)
Lemma ends_with_placeholder_not_and (s : string) :
  ends_with " = %s" s -> ~ ends_with "AND" s /\ ~ ends_with " AND " s.
Proof.
  intros [body E].
  assert (L : last_char s = Some "s"%char)
    by (rewrite E; apply (last_char_append body " " "= %s")).
  split; intros [body' E']; rewrite E' in L.
  - rewrite (last_char_append body' "A" "ND") in L. discriminate.
  - rewrite (last_char_append body' " " "AND ") in L. discriminate.
Qed.

Lemma nth_items (d : KV) (n : nat) (k : string) (v : value) :
  nth_error (Dict.items d) n = Some (k, v) ->
  nth_error (Dict.keys d) n = Some k /\ nth_error (Dict.values d) n = Some v.
Proof.
  intros E. split.
  - apply (map_nth_error fst) in E. exact E.
  - apply (map_nth_error snd) in E. exact E.
Qed.

Lemma marks_repeat (ks : list string) :
  map (fun _ : string => "%s") ks = repeat "%s" (List.length ks).
Proof.
  induction ks as [|k ks IH]; simpl; [reflexivity|].
  now rewrite IH.
Qed.

(** ** The builders, claim by claim *)

(** C6: with an empty filter map [build_select_query] returns
    [("SELECT * FROM T", [])]. *)
Theorem build_select_query_empty (table : string) (filters : KV) :
  Dict.items filters = [] ->
  build_select_query table filters = ("SELECT * FROM " ++ table, []).
Proof. apply select_empty_eq. Qed.

Lemma build_select_query_empty_witness :
  build_select_query "T" Dict.empty = ("SELECT * FROM T", []).
Proof.
  apply (build_select_query_empty "T" Dict.empty).
  reflexivity.
Defined.

(** C3: for a non-empty values map, [build_update_query] returns a string
    that starts with [UPDATE T SET k1 = %s, k2 = %s ...] over the keys of
    [values]; the [WHERE] clause over the keys of [filters] follows exactly
    when [filters] is non-empty; the string ends with a placeholder, never
    with a keyword; the arguments are the values of [values] followed by
    the values of [filters]. *)
Theorem build_update_query_shape (table : string) (values filters : KV) :
  Dict.items values <> [] ->
  let set_clause :=
    "UPDATE " ++ table ++ " SET "
      ++ join ", " (map placeholder_term (Dict.keys values)) in
  let where_ :=
    " WHERE " ++ join " AND " (map placeholder_term (Dict.keys filters)) in
  let q := fst (build_update_query table values filters) in
  let val_ls := snd (build_update_query table values filters) in
  (exists rest, q = set_clause ++ rest)
  /\ (Dict.items filters <> [] -> q = set_clause ++ where_)
  /\ (Dict.items filters = [] -> q = set_clause)
  /\ (q = set_clause ++ where_ <-> Dict.items filters <> [])
  /\ ends_with " = %s" q
  /\ val_ls = (Dict.values values ++ Dict.values filters)%list
  /\ (Dict.items filters = [] -> val_ls = Dict.values values).
Proof.
  intros NV set_clause where_ q val_ls.
  assert (QF : Dict.items filters <> [] -> q = set_clause ++ where_).
  { intros NE. subst q. rewrite (update_filters_eq _ _ _ NE). simpl.
    subst set_clause where_. unfold where_template.
    now rewrite !append_assoc. }
  assert (QE : Dict.items filters = [] -> q = set_clause).
  { intros E. subst q. now rewrite (update_empty_eq _ _ _ E). }
  assert (VE : Dict.items filters = [] -> val_ls = Dict.values values).
  { intros E. subst val_ls. now rewrite (update_empty_eq _ _ _ E). }
  assert (SE : ends_with " = %s" set_clause).
  { subst set_clause. apply (ends_with_prepend _ "UPDATE ").
    apply ends_with_prepend. apply (ends_with_prepend _ " SET ").
    apply join_terms_ends. now apply keys_nonempty. }
  assert (VA : val_ls = (Dict.values values ++ Dict.values filters)%list).
  { destruct (Dict.items filters) as [|it its] eqn:EI.
    - rewrite (VE eq_refl). unfold Dict.values at 3. rewrite EI.
      simpl. now rewrite app_nil_r.
    - subst val_ls. rewrite update_filters_eq; [reflexivity|].
      now rewrite EI. }
  assert (QS : ends_with " = %s" q).
  { destruct (Dict.items filters) as [|it its] eqn:EI.
    - now rewrite (QE eq_refl).
    - rewrite QF by congruence. subst set_clause where_.
      rewrite <- append_assoc. apply ends_with_prepend.
      apply join_terms_ends. unfold Dict.keys. rewrite EI. discriminate. }
  assert (QP : exists rest, q = set_clause ++ rest).
  { destruct (Dict.items filters) as [|it its] eqn:EI.
    - exists "". now rewrite append_empty_r, (QE eq_refl).
    - exists where_. apply QF. congruence. }
  split; [exact QP|]. split; [exact QF|]. split; [exact QE|].
  split; [|split; [exact QS|split; [exact VA|exact VE]]].
  split; intros E.
  - intros EI. rewrite (QE EI) in E. symmetry in E.
    apply append_eq_self in E. discriminate.
  - now apply QF.
Qed.

Lemma build_update_query_shape_witness :
  snd (build_update_query "T" d_a1 d_b2) = [VInt 1; VInt 2].
Proof.
  refine (proj1 (proj2 (proj2 (proj2 (proj2 (proj2
            (build_update_query_shape "T" d_a1 d_b2 _))))))).
  simpl. discriminate.
Defined.

(** C4: [build_insert_query] returns
    [INSERT INTO T (k1, k2, ...) VALUES (%s, %s, ...)]: the column list and
    the placeholder list follow the iteration order of [values] and have
    the same length, and the arguments are the values in that order. It
    holds for every map, so for every non-empty one. *)
Theorem build_insert_query_shape (table : string) (values : KV) :
  let columns := Dict.keys values in
  let marks := map (fun _ : string => "%s") (Dict.keys values) in
  build_insert_query table values
  = ("INSERT INTO " ++ table ++ " (" ++ join ", " columns
       ++ ") VALUES (" ++ join ", " marks ++ ")",
     Dict.values values)
  /\ marks = repeat "%s" (Dict.len values)
  /\ List.length columns = List.length marks
  /\ List.length (snd (build_insert_query table values)) = List.length columns
  /\ (forall n k v, nth_error (Dict.items values) n = Some (k, v) ->
                    nth_error columns n = Some k
                    /\ nth_error marks n = Some "%s"
                    /\ nth_error (snd (build_insert_query table values)) n
                       = Some v).
Proof.
  intros columns marks. subst columns marks.
  rewrite insert_eq. simpl snd. repeat split.
  - rewrite marks_repeat. now rewrite keys_length.
  - now rewrite length_map.
  - now rewrite values_length, keys_length.
  - now apply nth_items in H.
  - apply nth_items in H as [H _].
    apply (map_nth_error (fun _ : string => "%s")) in H. exact H.
  - now apply nth_items in H.
Qed.

(** C5: [build_delete_query] returns [("DELETE FROM T", [])] for an empty
    filter map, and [DELETE FROM T WHERE f1 = %s AND f2 = %s ...] over the
    keys in iteration order, with the values in that order, otherwise. *)
Theorem build_delete_query_shape (table : string) (filters : KV) :
  build_delete_query table Dict.empty = ("DELETE FROM " ++ table, [])
  /\ (Dict.items filters = [] ->
      build_delete_query table filters = ("DELETE FROM " ++ table, []))
  /\ (Dict.items filters <> [] ->
      build_delete_query table filters
      = ("DELETE FROM " ++ table ++ " WHERE "
           ++ join " AND " (map placeholder_term (Dict.keys filters)),
         Dict.values filters)).
Proof.
  split; [reflexivity|]. split.
  - apply delete_empty_eq.
  - apply delete_filters_eq.
Qed.

(** C9: on an empty values map neither builder fails:
    [build_insert_query] returns [("INSERT INTO T () VALUES ()", [])] and
    [build_update_query] returns [UPDATE T SET ] with nothing after [SET]
    but the [WHERE] clause of a non-empty [filters], with the values of
    [filters] as its only arguments. *)
Theorem builders_on_empty_values (table : string) (values filters : KV) :
  Dict.items values = [] ->
  build_insert_query table values
  = ("INSERT INTO " ++ table ++ " () VALUES ()", [])
  /\ build_update_query table values filters
     = ("UPDATE " ++ table ++ " SET "
          ++ (if Dict.truthy filters then where_template filters else ""),
        Dict.values filters).
Proof.
  intros E. split.
  - rewrite insert_eq. unfold Dict.keys, Dict.values. now rewrite E.
  - destruct (Dict.truthy filters) eqn:Tr.
    + apply truthy_items in Tr. rewrite (update_filters_eq _ _ _ Tr).
      unfold Dict.keys at 1. unfold Dict.values at 1. now rewrite E.
    + apply falsy_items in Tr. rewrite (update_empty_eq _ _ _ Tr).
      unfold Dict.keys, Dict.values. now rewrite E, Tr.
Qed.

Lemma builders_on_empty_values_witness :
  build_insert_query "T" Dict.empty = ("INSERT INTO T () VALUES ()", [])
  /\ build_update_query "T" Dict.empty d_b2
     = ("UPDATE T SET  WHERE b = %s", [VInt 2]).
Proof.
  apply (builders_on_empty_values "T" Dict.empty d_b2).
  reflexivity.
Defined.

(** ** Binding arguments to placeholders *)

Lemma string_pair_ind (P : string -> Prop) :
  P "" ->
  (forall c, P (String c "")) ->
  (forall c c' s, P s -> P (String c' s) -> P (String c (String c' s))) ->
  forall s, P s.
Proof.
  intros H0 H1 H2.
  assert (A : forall s, P s /\ forall c, P (String c s)).
  { induction s as [|c s [IH1 IH2]]; split; auto. }
  intros s. apply A.
Qed.

Lemma is_percent_eq (c : ascii) : is_percent c = true -> c = "%"%char.
Proof. apply Ascii.eqb_eq. Qed.

Lemma is_s_eq (c : ascii) : is_s c = true -> c = "s"%char.
Proof. apply Ascii.eqb_eq. Qed.

Lemma placeholder_count_skip (c : ascii) (r : string) :
  is_percent c && starts_s r = false ->
  placeholder_count (String c r) = placeholder_count r.
Proof.
  simpl. destruct (is_percent c); [|reflexivity].
  destruct r as [|c' r]; [reflexivity|].
  unfold starts_s. simpl. now intros ->.
Qed.

Lemma bind_args_skip (c : ascii) (r : string) (args : list string) :
  is_percent c && starts_s r = false ->
  bind_args (String c r) args = option_map (String c) (bind_args r args).
Proof.
  simpl. destruct (is_percent c); [|reflexivity].
  destruct r as [|c' r]; [reflexivity|].
  unfold starts_s. simpl. now intros ->.
Qed.

Lemma bind_args_hit (r a : string) (args : list string) :
  bind_args ("%s" ++ r) (a :: args) = option_map (append a) (bind_args r args).
Proof. reflexivity. Qed.

(** Binding succeeds only when there are as many arguments as
    placeholders. *)
Lemma bind_args_count (q : string) :
  forall args r,
    bind_args q args = Some r -> placeholder_count q = List.length args.
Proof.
  induction q as [|c|c c' s IHs IHc] using string_pair_ind; intros args r.
  - simpl. destruct args; [reflexivity|discriminate].
  - rewrite bind_args_skip by (unfold starts_s; simpl; apply andb_false_r).
    rewrite placeholder_count_skip
      by (unfold starts_s; simpl; apply andb_false_r).
    simpl. destruct args; [reflexivity|discriminate].
  - destruct (is_percent c && starts_s (String c' s)) eqn:E.
    + apply andb_prop in E as [E1 E2].
      apply is_percent_eq in E1. apply is_s_eq in E2. subst c c'.
      destruct args as [|a args]; [discriminate|].
      change (bind_args (String "%" (String "s" s)) (a :: args))
        with (option_map (append a) (bind_args s args)).
      destruct (bind_args s args) as [r'|] eqn:B; [|discriminate].
      intros _. simpl. f_equal. now apply (IHs args r').
    + rewrite bind_args_skip, placeholder_count_skip by exact E.
      destruct (bind_args (String c' s) args) as [r'|] eqn:B; [|discriminate].
      intros _. now apply (IHc args r').
Qed.

(** A clean text in front of a query is copied as it is, provided no
    placeholder forms across the seam. *)
Lemma bind_args_append (a : string) :
  forall b args r,
    clean a -> straddles a b = false ->
    bind_args b args = Some r ->
    bind_args (a ++ b) args = Some (a ++ r).
Proof.
  unfold clean.
  induction a as [|c a IH]; intros b args r Ca St B; [exact B|].
  destruct a as [|c' a'].
  - change (String c "" ++ b) with (String c b).
    rewrite bind_args_skip by exact St. now rewrite B.
  - destruct (is_percent c && starts_s (String c' a')) eqn:E.
    + apply andb_prop in E as [E1 E2].
      apply is_percent_eq in E1. apply is_s_eq in E2. subst c c'.
      discriminate.
    + rewrite placeholder_count_skip in Ca by exact E.
      change (String c (String c' a') ++ b)
        with (String c (String c' a' ++ b)).
      rewrite bind_args_skip by exact E.
      now rewrite (IH b args r Ca St B).
Qed.

Lemma straddles_not_s (a b : string) : starts_s b = false -> straddles a b = false.
Proof. unfold straddles. intros ->. apply andb_false_r. Qed.

Lemma straddles_not_percent (a b : string) :
  ends_percent a = false -> straddles a b = false.
Proof. unfold straddles. now intros ->. Qed.

Section Binding.

Variable render : value -> string.

(** One term [k = %s] takes the first argument. *)
Lemma bind_placeholder_term (it : Dict.item) (rest : string)
  (args : list string) (r : string) :
  clean (fst it) ->
  bind_args rest args = Some r ->
  bind_args (placeholder_term (fst it) ++ rest) (render (snd it) :: args)
  = Some (eq_term render it ++ r).
Proof.
  intros Ck B. unfold placeholder_term, eq_term.
  rewrite !append_assoc.
  apply bind_args_append; [exact Ck|now apply straddles_not_s|].
  apply (bind_args_append " = "); [reflexivity|reflexivity|].
  rewrite (bind_args_hit rest). now rewrite B.
Qed.

(** Terms joined by a clean separator take one argument each, in
    order. *)
Lemma bind_joined_terms (sep : string) (its : list Dict.item) :
  clean sep -> ends_percent sep = false ->
  Forall clean (map fst its) ->
  forall rest args r,
    bind_args rest args = Some r ->
    bind_args (join sep (map placeholder_term (map fst its)) ++ rest)
              (map render (map snd its) ++ args)%list
    = Some (join sep (map (eq_term render) its) ++ r).
Proof.
  intros Cs Es. induction its as [|it its IH]; intros Ck rest args r B.
  - exact B.
  - inversion Ck as [|k ks Ck1 Ck2]; subst.
    destruct its as [|it' its].
    + simpl. now apply bind_placeholder_term.
    + change (join sep (map placeholder_term (map fst (it :: it' :: its))))
        with (placeholder_term (fst it) ++ sep
                ++ join sep (map placeholder_term (map fst (it' :: its)))).
      change (join sep (map (eq_term render) (it :: it' :: its)))
        with (eq_term render it ++ sep
                ++ join sep (map (eq_term render) (it' :: its))).
      rewrite !append_assoc.
      change (map render (map snd (it :: it' :: its)) ++ args)%list
        with (render (snd it)
                :: (map render (map snd (it' :: its)) ++ args))%list.
      apply bind_placeholder_term; [exact Ck1|].
      apply bind_args_append;
        [exact Cs|now apply straddles_not_percent|].
      now apply IH.
Qed.

(** A joined list of clean column names binds nothing. *)
Lemma bind_joined_columns (ks : list string) :
  Forall clean ks ->
  forall rest args r,
    starts_s rest = false ->
    bind_args rest args = Some r ->
    bind_args (join ", " ks ++ rest) args = Some (join ", " ks ++ r).
Proof.
  induction ks as [|k ks IH]; intros Ck rest args r Sr B.
  - exact B.
  - inversion Ck as [|k0 ks0 Ck1 Ck2]; subst.
    destruct ks as [|k' ks].
    + simpl. apply bind_args_append; auto using straddles_not_s.
    + change (join ", " (k :: k' :: ks))
        with (k ++ ", " ++ join ", " (k' :: ks)).
      rewrite !append_assoc.
      apply bind_args_append; [exact Ck1|now apply straddles_not_s|].
      apply (bind_args_append ", "); [reflexivity|reflexivity|].
      now apply IH.
Qed.

(** A joined list of bare placeholders takes one argument each. *)
Lemma bind_joined_marks (its : list Dict.item) :
  forall rest args r,
    bind_args rest args = Some r ->
    bind_args (join ", " (map (fun _ : string => "%s") (map fst its)) ++ rest)
              (map render (map snd its) ++ args)%list
    = Some (join ", " (map render (map snd its)) ++ r).
Proof.
  induction its as [|it its IH]; intros rest args r B.
  - exact B.
  - destruct its as [|it' its].
    + simpl. rewrite B. reflexivity.
    + change (join ", " (map (fun _ : string => "%s")
                           (map fst (it :: it' :: its))))
        with ("%s" ++ ", "
                ++ join ", " (map (fun _ : string => "%s")
                                (map fst (it' :: its)))).
      change (join ", " (map render (map snd (it :: it' :: its))))
        with (render (snd it) ++ ", "
                ++ join ", " (map render (map snd (it' :: its)))).
      change (map render (map snd (it :: it' :: its)) ++ args)%list
        with (render (snd it)
                :: (map render (map snd (it' :: its)) ++ args))%list.
      rewrite !append_assoc. rewrite bind_args_hit.
      rewrite (bind_args_append ", " _ _
                 (join ", " (map render (map snd (it' :: its))) ++ r));
        [reflexivity|reflexivity|reflexivity|].
      now apply IH.
Qed.

End Binding.

(** ** The builders in one form for both cases of [filters] *)

Lemma values_of_falsy (d : KV) : Dict.truthy d = false -> Dict.values d = [].
Proof.
  intros E. apply falsy_items in E. unfold Dict.values. now rewrite E.
Qed.

Lemma select_eq (table : string) (filters : KV) :
  build_select_query table filters
  = ("SELECT * FROM " ++ table ++ optional_where filters, Dict.values filters).
Proof.
  unfold optional_where. destruct (Dict.truthy filters) eqn:Tr.
  - apply select_filters_eq. now apply truthy_items.
  - rewrite select_empty_eq by now apply falsy_items.
    now rewrite append_empty_r, (values_of_falsy filters Tr).
Qed.

Lemma update_eq (table : string) (values filters : KV) :
  build_update_query table values filters
  = ("UPDATE " ++ table ++ " SET "
       ++ join ", " (map placeholder_term (Dict.keys values))
       ++ optional_where filters,
     (Dict.values values ++ Dict.values filters)%list).
Proof.
  unfold optional_where. destruct (Dict.truthy filters) eqn:Tr.
  - apply update_filters_eq. now apply truthy_items.
  - rewrite update_empty_eq by now apply falsy_items.
    now rewrite append_empty_r, (values_of_falsy filters Tr), app_nil_r.
Qed.

Lemma delete_eq (table : string) (filters : KV) :
  build_delete_query table filters
  = ("DELETE FROM " ++ table ++ optional_where filters, Dict.values filters).
Proof.
  unfold optional_where. destruct (Dict.truthy filters) eqn:Tr.
  - apply delete_filters_eq. now apply truthy_items.
  - rewrite delete_empty_eq by now apply falsy_items.
    now rewrite append_empty_r, (values_of_falsy filters Tr).
Qed.

Lemma optional_where_head (filters : KV) :
  starts_s (optional_where filters) = false.
Proof. unfold optional_where. now destruct (Dict.truthy filters). Qed.

Lemma bind_optional_where (render : value -> string) (filters : KV) :
  Forall clean (Dict.keys filters) ->
  bind_args (optional_where filters) (map render (Dict.values filters))
  = Some (where_clause render filters).
Proof.
  intros Ck. unfold optional_where, where_clause.
  destruct (Dict.truthy filters) eqn:Tr.
  - unfold where_template.
    apply (bind_args_append " WHERE "); [reflexivity|reflexivity|].
    pose proof (bind_joined_terms render " AND " (Dict.items filters)
                  eq_refl eq_refl Ck "" [] "" eq_refl) as B.
    rewrite !append_empty_r, app_nil_r in B. exact B.
  - now rewrite (values_of_falsy filters Tr).
Qed.

Lemma clean_names_split (table : string) (ks : list string) :
  Forall clean (table :: ks) -> clean table /\ Forall clean ks.
Proof. intros F. now inversion F. Qed.

(** Binding the arguments a builder returns to the placeholders of the
    string it returns writes every value next to its own column. *)
Lemma run_build_binds (render : value -> string) (b : build_call) :
  Forall clean (spliced_names b) ->
  bind_args (fst (run_build b)) (map render (snd (run_build b)))
  = Some (inlined render b).
Proof.
  destruct b as [table filters|table values|table values filters|table filters];
    simpl run_build; simpl spliced_names; simpl inlined; intros Cn;
    apply clean_names_split in Cn as [Ct Ck].
  - rewrite select_eq. simpl fst. simpl snd.
    apply (bind_args_append "SELECT * FROM "); [reflexivity|reflexivity|].
    apply bind_args_append;
      [exact Ct|apply straddles_not_s, optional_where_head|].
    now apply bind_optional_where.
  - rewrite insert_eq. simpl fst. simpl snd.
    apply (bind_args_append "INSERT INTO "); [reflexivity|reflexivity|].
    apply bind_args_append; [exact Ct|now apply straddles_not_s|].
    apply (bind_args_append " ("); [reflexivity|reflexivity|].
    apply bind_joined_columns; [exact Ck|reflexivity|].
    apply (bind_args_append ") VALUES ("); [reflexivity|reflexivity|].
    pose proof (bind_joined_marks render (Dict.items values) ")" [] ")"
                  eq_refl) as B.
    rewrite app_nil_r in B. exact B.
  - rewrite update_eq. simpl fst. simpl snd.
    apply Forall_app in Ck as [Cv Cf].
    apply (bind_args_append "UPDATE "); [reflexivity|reflexivity|].
    apply bind_args_append; [exact Ct|now apply straddles_not_s|].
    apply (bind_args_append " SET "); [reflexivity|reflexivity|].
    rewrite map_app.
    apply (bind_joined_terms render ", " (Dict.items values));
      [reflexivity|reflexivity|exact Cv|].
    now apply bind_optional_where.
  - rewrite delete_eq. simpl fst. simpl snd.
    apply (bind_args_append "DELETE FROM "); [reflexivity|reflexivity|].
    apply bind_args_append;
      [exact Ct|apply straddles_not_s, optional_where_head|].
    now apply bind_optional_where.
Qed.

Lemma run_build_arguments (b : build_call) :
  snd (run_build b) = map snd (bound_items b).
Proof.
  destruct b as [table filters|table values|table values filters|table filters];
    simpl run_build; simpl bound_items.
  - now rewrite select_eq.
  - now rewrite insert_eq.
  - rewrite update_eq. simpl. now rewrite map_app.
  - now rewrite delete_eq.
Qed.

(** ** Placeholders against arguments *)

(** C1, as the specification states it, fails: a table name is spliced
    into the string unchanged, so a table called [%s] adds a placeholder
    that has no argument. *)
Lemma placeholder_in_table_name :
  placeholder_count (fst (run_build (BuildSelect "%s" Dict.empty)))
  <> List.length (snd (run_build (BuildSelect "%s" Dict.empty))).
Proof. simpl. discriminate. Qed.

Example placeholder_in_key :
  build_delete_query "T" (Dict.mk [("%s", VInt 1)] eq_refl)
  = ("DELETE FROM T WHERE %s = %s", [VInt 1]).
Proof. reflexivity. Qed.

(** C1, amended: when neither the table name nor any key contains [%s],
    every builder returns as many arguments as its string has
    placeholders, the arguments are the values of the maps in iteration
    order ([values] before [filters]), and binding the n-th argument to the
    n-th placeholder writes each value next to its own column. *)
Theorem placeholders_match_arguments (b : build_call)
  (render : value -> string) :
  Forall clean (spliced_names b) ->
  placeholder_count (fst (run_build b)) = List.length (snd (run_build b))
  /\ snd (run_build b) = map snd (bound_items b)
  /\ bind_args (fst (run_build b)) (map render (snd (run_build b)))
     = Some (inlined render b).
Proof.
  intros Cn. pose proof (run_build_binds render b Cn) as B.
  split; [|split; [apply run_build_arguments|exact B]].
  apply bind_args_count in B. now rewrite length_map in B.
Qed.

Lemma placeholders_match_arguments_witness :
  bind_args (fst (run_build (BuildUpdate "T" d_a1 d_b2)))
            (map render_sql (snd (run_build (BuildUpdate "T" d_a1 d_b2))))
  = Some "UPDATE T SET a = 1 WHERE b = 2".
Proof.
  refine (proj2 (proj2 (placeholders_match_arguments
                          (BuildUpdate "T" d_a1 d_b2) render_sql _))).
  simpl. repeat constructor.
Defined.

(** ** What a builder reads *)

(** A builder reads the items of its maps and nothing else. *)
Lemma run_build_reads_items (b1 b2 : build_call) :
  build_inputs b1 = build_inputs b2 -> run_build b1 = run_build b2.
Proof.
  destruct b1 as [t1 f1|t1 v1|t1 v1 f1|t1 f1];
    destruct b2 as [t2 f2|t2 v2|t2 v2 f2|t2 f2];
    simpl; intros E; try discriminate.
  - injection E as Et Ef. subst t2. rewrite !select_eq.
    unfold optional_where, where_template, Dict.truthy, Dict.keys, Dict.values.
    now rewrite Ef.
  - injection E as Et Ev. subst t2. rewrite !insert_eq.
    unfold Dict.keys, Dict.values. now rewrite Ev.
  - injection E as Et Ev Ef. subst t2. rewrite !update_eq.
    unfold optional_where, where_template, Dict.truthy, Dict.keys, Dict.values.
    now rewrite Ev, Ef.
  - injection E as Et Ef. subst t2. rewrite !delete_eq.
    unfold optional_where, where_template, Dict.truthy, Dict.keys, Dict.values.
    now rewrite Ef.
Qed.

(** ** The executor and the wrappers *)

Section ExecutorProperties.

Context {conn cursor error : Type} `{D : Driver conn cursor error}.

(** An error of the driver is the error of [execute_query]. *)
Lemma execute_query_raises (query : string) (args : list value)
  (ret_result : bool) (c : conn) (e : error) :
  cursor_execute (conn_cursor c) query args c = inl e ->
  execute_query query args ret_result c = inl e.
Proof.
  intros E. unfold execute_query, bind, get_cursor, execute.
  now rewrite E.
Qed.

(** C8: when the driver runs the statement, [execute_query] returns the
    rows fetched from the cursor if [ret_result] is true and the count
    returned by [cursor.execute] if it is false. *)
Theorem execute_query_returns (query : string) (args : list value)
  (ret_result : bool) (c c' : conn) (count : Z) (cur : cursor) :
  cursor_execute (conn_cursor c) query args c = inr (count, cur, c') ->
  execute_query query args ret_result c
  = inr (if ret_result then Rows (cursor_fetchall cur) else Count count, c')
  /\ execute_query query args true c = inr (Rows (cursor_fetchall cur), c')
  /\ execute_query query args false c = inr (Count count, c').
Proof.
  intros E. unfold execute_query, bind, get_cursor, execute, ret.
  rewrite E. now destruct ret_result.
Qed.

Lemma execute_query_mode (query : string) (args : list value) (c : conn) :
  returns_rows (execute_query query args true c)
  /\ returns_count (execute_query query args false c).
Proof.
  unfold execute_query, bind, get_cursor, execute, ret.
  destruct (cursor_execute (conn_cursor c) query args c) as [e|[[n cur] c']];
    simpl; auto.
Qed.

(** C10: each wrapper is [execute_query] applied to the string and the
    arguments of its builder, with [ret_result] true for [select] and
    false for [insert], [update] and [delete]; so [select] never returns a
    count and the other three never return rows. *)
Theorem wrappers_compose (table : string) (values filters : KV) :
  (select table filters
   = execute_query (fst (build_select_query table filters))
                   (snd (build_select_query table filters)) true
   /\ insert table values
      = execute_query (fst (build_insert_query table values))
                      (snd (build_insert_query table values)) false
   /\ update table values filters
      = execute_query (fst (build_update_query table values filters))
                      (snd (build_update_query table values filters)) false
   /\ delete table filters
      = execute_query (fst (build_delete_query table filters))
                      (snd (build_delete_query table filters)) false)
  /\ forall c : conn,
       returns_rows (select table filters c)
       /\ returns_count (insert table values c)
       /\ returns_count (update table values filters c)
       /\ returns_count (delete table filters c).
Proof.
  assert (S : select table filters
              = execute_query (fst (build_select_query table filters))
                  (snd (build_select_query table filters)) true)
    by (unfold select; now destruct (build_select_query table filters)).
  assert (I : insert table values
              = execute_query (fst (build_insert_query table values))
                  (snd (build_insert_query table values)) false)
    by (unfold insert; now destruct (build_insert_query table values)).
  assert (U : update table values filters
              = execute_query (fst (build_update_query table values filters))
                  (snd (build_update_query table values filters)) false)
    by (unfold update; now destruct (build_update_query table values filters)).
  assert (X : delete table filters
              = execute_query (fst (build_delete_query table filters))
                  (snd (build_delete_query table filters)) false)
    by (unfold delete; now destruct (build_delete_query table filters)).
  split; [now repeat split|].
  intros c. rewrite S, I, U, X.
  repeat split; apply execute_query_mode.
Qed.

End ExecutorProperties.

Lemma execute_query_returns_witness :
  execute_query "SELECT * FROM T" [] true ([] : list Query)
  = inr (Rows [d_a1], [("SELECT * FROM T", [])])
  /\ execute_query "SELECT * FROM T" [] false ([] : list Query)
     = inr (Count 0, [("SELECT * FROM T", [])]).
Proof.
  refine (proj2 (execute_query_returns
                   "SELECT * FROM T" [] true [] _ 0%Z [d_a1] _)).
  reflexivity.
Defined.

Example select_on_log_driver :
  select "T" d_a1 ([] : list Query)
  = inr (Rows [d_a1], [("SELECT * FROM T WHERE a = %s", [VInt 1])]).
Proof. reflexivity. Qed.

Example delete_on_log_driver :
  delete "T" d_a1 [("SELECT * FROM T", [])]
  = inr (Count 1,
         [("DELETE FROM T WHERE a = %s", [VInt 1]); ("SELECT * FROM T", [])]).
Proof. reflexivity. Qed.

Example mismatch_raises_on_log_driver :
  select "%s" Dict.empty ([] : list Query) = inl tt.
Proof. reflexivity. Qed.

(** * Further properties of the code *)

(** ** Lookups inside the loop of [build_select_query] *)





(** ** Values stay out of the text *)

Lemma truthy_keys (d : KV) :
  Dict.truthy d = match Dict.keys d with [] => false | _ :: _ => true end.
Proof. unfold Dict.truthy, Dict.keys. now destruct (Dict.items d). Qed.

Lemma optional_where_keys (f1 f2 : KV) :
  Dict.keys f1 = Dict.keys f2 -> optional_where f1 = optional_where f2.
Proof.
  intros E. unfold optional_where, where_template.
  now rewrite !truthy_keys, E.
Qed.

(** The string a builder returns is a function of the table name and of the
    keys alone: replacing the values of the maps by any others leaves the
    text, character for character, as it was. *)
Theorem query_text_ignores_values (b1 b2 : build_call) :
  build_names b1 = build_names b2 ->
  fst (run_build b1) = fst (run_build b2).
Proof.
  destruct b1 as [t1 f1|t1 v1|t1 v1 f1|t1 f1];
    destruct b2 as [t2 f2|t2 v2|t2 v2 f2|t2 f2];
    cbn [run_build build_names]; intros E; try discriminate.
  - injection E as Et Ef. subst t2. rewrite !select_eq. simpl.
    now rewrite (optional_where_keys f1 f2 Ef).
  - injection E as Et Ev. subst t2. rewrite !insert_eq. simpl.
    now rewrite Ev.
  - injection E as Et Ev Ef. subst t2. rewrite !update_eq. simpl.
    now rewrite Ev, (optional_where_keys f1 f2 Ef).
  - injection E as Et Ef. subst t2. rewrite !delete_eq. simpl.
    now rewrite (optional_where_keys f1 f2 Ef).
Qed.

Lemma query_text_ignores_values_witness :
  fst (run_build (BuildSelect "T" d_a1))
  = fst (run_build (BuildSelect "T" d_a_quote)).
Proof.
  apply (query_text_ignores_values
           (BuildSelect "T" d_a1) (BuildSelect "T" d_a_quote)).
  reflexivity.
Defined.

(** ** The builders against each other *)

Lemma append_cancel_l (a x y : string) : a ++ x = a ++ y -> x = y.
Proof.
  induction a as [|c a IH]; simpl; intros E; [exact E|].
  injection E as E. auto.
Qed.

(** [build_select_query], which builds its clause in a loop and cuts the
    last five characters off, and [build_delete_query], which joins, return
    the same arguments and put one and the same text after the table
    name. *)
Theorem select_and_delete_agree (t1 t2 : string) (filters : KV) :
  snd (build_select_query t1 filters) = snd (build_delete_query t2 filters)
  /\ exists tail,
       fst (build_select_query t1 filters) = "SELECT * FROM " ++ t1 ++ tail
       /\ fst (build_delete_query t2 filters) = "DELETE FROM " ++ t2 ++ tail.
Proof.
  rewrite select_eq, delete_eq. cbn [fst snd]. split; [reflexivity|].
  exists (optional_where filters). split; reflexivity.
Qed.

(** [build_update_query] with filters is [build_update_query] without
    filters followed by what [build_delete_query] puts after the table
    name, in the text and in the arguments. *)
Theorem update_extends_unfiltered (t1 t2 : string) (values filters : KV) :
  snd (build_update_query t1 values filters)
  = (snd (build_update_query t1 values Dict.empty)
       ++ snd (build_delete_query t2 filters))%list
  /\ forall tail,
       fst (build_delete_query t2 filters) = "DELETE FROM " ++ t2 ++ tail ->
       fst (build_update_query t1 values filters)
       = fst (build_update_query t1 values Dict.empty) ++ tail.
Proof.
  rewrite !update_eq, delete_eq. cbn [fst snd].
  change (optional_where Dict.empty) with "".
  change (Dict.values Dict.empty) with (@nil value).
  rewrite app_nil_r, append_empty_r. split; [reflexivity|].
  intros tail E. apply append_cancel_l, append_cancel_l in E.
  rewrite <- E. now rewrite !append_assoc.
Qed.

Lemma update_extends_unfiltered_witness :
  fst (build_update_query "T" d_a1 d_b2)
  = fst (build_update_query "T" d_a1 Dict.empty) ++ " WHERE b = %s".
Proof.
  refine (proj2 (update_extends_unfiltered "T" "U" d_a1 d_b2)
            " WHERE b = %s" _).
  reflexivity.
Defined.

Lemma optional_where_empty (filters : KV) :
  optional_where filters = "" <-> Dict.items filters = [].
Proof.
  unfold optional_where. split.
  - destruct (Dict.truthy filters) eqn:Tr; [discriminate|].
    intros _. now apply falsy_items.
  - intros E. apply falsy_items in E. now rewrite E.
Qed.

(** A statement has no [WHERE] clause, and so reaches every row of the
    table, exactly when [filters] is empty: the text of
    [build_select_query] is [SELECT * FROM T], that of
    [build_delete_query] is [DELETE FROM T], and that of
    [build_update_query] is its [SET] clause, if and only if [filters] has
    no item. *)
Theorem unfiltered_iff_no_filters (table : string) (values filters : KV) :
  (fst (build_select_query table filters) = "SELECT * FROM " ++ table
   <-> Dict.items filters = [])
  /\ (fst (build_delete_query table filters) = "DELETE FROM " ++ table
      <-> Dict.items filters = [])
  /\ (fst (build_update_query table values filters)
      = fst (build_update_query table values Dict.empty)
      <-> Dict.items filters = []).
Proof.
  rewrite select_eq, delete_eq, !update_eq. cbn [fst snd].
  change (optional_where Dict.empty) with "".
  rewrite <- !optional_where_empty.
  split; [|split]; split; intros E.
  - rewrite <- (append_empty_r table) in E at 2.
    now apply append_cancel_l, append_cancel_l in E.
  - now rewrite E, append_empty_r.
  - rewrite <- (append_empty_r table) in E at 2.
    now apply append_cancel_l, append_cancel_l in E.
  - now rewrite E, append_empty_r.
  - rewrite append_empty_r in E.
    rewrite <- (append_empty_r (join ", " _)) in E at 2.
    now apply append_cancel_l, append_cancel_l, append_cancel_l,
      append_cancel_l in E.
  - now rewrite E.
Qed.

(** ** The exact number of placeholders *)

Lemma straddles_tail (c c' : ascii) (s b : string) :
  straddles (String c (String c' s)) b = false -> straddles s b = false.
Proof.
  unfold straddles. destruct s as [|x s]; [reflexivity|]. exact (fun E => E).
Qed.

(** Counting is additive over a seam that forms no placeholder. *)
Lemma placeholder_count_append (a : string) :
  forall b,
    straddles a b = false ->
    placeholder_count (a ++ b) = placeholder_count a + placeholder_count b.
Proof.
  induction a as [|c|c c' s IHs IHc] using string_pair_ind; intros b St.
  - reflexivity.
  - change (String c "" ++ b) with (String c b).
    rewrite placeholder_count_skip by exact St.
    rewrite (placeholder_count_skip c "")
      by (unfold starts_s; simpl; apply andb_false_r).
    reflexivity.
  - change (String c (String c' s) ++ b) with (String c (String c' s ++ b)).
    destruct (is_percent c && starts_s (String c' s)) eqn:E.
    + apply andb_prop in E as [E1 E2].
      apply is_percent_eq in E1. apply is_s_eq in E2. subst c c'.
      change (placeholder_count (String "%" (String "s" s ++ b)))
        with (S (placeholder_count (s ++ b))).
      change (placeholder_count (String "%" (String "s" s)))
        with (S (placeholder_count s)).
      rewrite (IHs b (straddles_tail _ _ _ _ St)). reflexivity.
    + rewrite (placeholder_count_skip c (String c' s)) by exact E.
      rewrite (placeholder_count_skip c (String c' s ++ b)) by exact E.
      apply IHc. exact St.
Qed.

Lemma count_after_name (k rest : string) :
  starts_s rest = false ->
  placeholder_count (k ++ rest) = placeholder_count k + placeholder_count rest.
Proof. intros Sr. now apply placeholder_count_append, straddles_not_s. Qed.

Lemma count_after_separator (sep rest : string) :
  clean sep -> ends_percent sep = false ->
  placeholder_count (sep ++ rest) = placeholder_count rest.
Proof.
  intros Cs Es.
  rewrite placeholder_count_append by now apply straddles_not_percent.
  now rewrite Cs.
Qed.

Lemma count_placeholder_term (k rest : string) :
  placeholder_count (placeholder_term k ++ rest)
  = S (placeholder_count k + placeholder_count rest).
Proof.
  unfold placeholder_term. rewrite append_assoc.
  rewrite count_after_name by reflexivity.
  change (placeholder_count (" = %s" ++ rest))
    with (S (placeholder_count rest)).
  now rewrite Nat.add_succ_r.
Qed.

Lemma count_joined_terms (sep : string) (ks : list string) (rest : string) :
  clean sep -> ends_percent sep = false ->
  placeholder_count (join sep (map placeholder_term ks) ++ rest)
  = List.length ks + list_sum (map placeholder_count ks)
    + placeholder_count rest.
Proof.
  intros Cs Es. induction ks as [|k ks IH]; [reflexivity|].
  destruct ks as [|k' ks].
  - cbn [map join List.length list_sum fold_right].
    rewrite count_placeholder_term. now rewrite !Nat.add_0_r.
  - change (join sep (map placeholder_term (k :: k' :: ks)))
      with (placeholder_term k ++ sep
              ++ join sep (map placeholder_term (k' :: ks))).
    rewrite !append_assoc. rewrite count_placeholder_term.
    rewrite count_after_separator by assumption.
    rewrite IH.
    change (List.length (k :: k' :: ks)) with (S (List.length (k' :: ks))).
    change (list_sum (map placeholder_count (k :: k' :: ks)))
      with (placeholder_count k
            + list_sum (map placeholder_count (k' :: ks))).
    rewrite <- !Nat.add_assoc. cbn [Nat.add]. f_equal.
    rewrite !Nat.add_assoc.
    rewrite (Nat.add_comm (placeholder_count k) (List.length (k' :: ks))).
    reflexivity.
Qed.

Lemma count_joined_columns (ks : list string) (rest : string) :
  starts_s rest = false ->
  placeholder_count (join ", " ks ++ rest)
  = list_sum (map placeholder_count ks) + placeholder_count rest.
Proof.
  intros Sr. induction ks as [|k ks IH]; [reflexivity|].
  destruct ks as [|k' ks].
  - cbn [map join list_sum fold_right].
    rewrite count_after_name by exact Sr. now rewrite Nat.add_0_r.
  - change (join ", " (k :: k' :: ks))
      with (k ++ ", " ++ join ", " (k' :: ks)).
    rewrite !append_assoc.
    rewrite count_after_name by reflexivity.
    rewrite (count_after_separator ", ") by reflexivity.
    rewrite IH.
    change (list_sum (map placeholder_count (k :: k' :: ks)))
      with (placeholder_count k
            + list_sum (map placeholder_count (k' :: ks))).
    now rewrite Nat.add_assoc.
Qed.

Lemma count_joined_marks (ks : list string) (rest : string) :
  placeholder_count (join ", " (map (fun _ : string => "%s") ks) ++ rest)
  = List.length ks + placeholder_count rest.
Proof.
  induction ks as [|k ks IH]; [reflexivity|].
  destruct ks as [|k' ks].
  - reflexivity.
  - change (join ", " (map (fun _ : string => "%s") (k :: k' :: ks)))
      with ("%s" ++ ", "
              ++ join ", " (map (fun _ : string => "%s") (k' :: ks))).
    rewrite !append_assoc.
    change (placeholder_count
              ("%s" ++ ", "
                 ++ join ", " (map (fun _ : string => "%s") (k' :: ks))
                 ++ rest))
      with (S (placeholder_count
                 (", " ++ join ", " (map (fun _ : string => "%s") (k' :: ks))
                    ++ rest))).
    rewrite (count_after_separator ", ") by reflexivity.
    now rewrite IH.
Qed.

Lemma count_optional_where (filters : KV) :
  placeholder_count (optional_where filters)
  = Dict.len filters + list_sum (map placeholder_count (Dict.keys filters)).
Proof.
  unfold optional_where. destruct (Dict.truthy filters) eqn:Tr.
  - unfold where_template.
    rewrite (count_after_separator " WHERE ") by reflexivity.
    rewrite <- (append_empty_r (join " AND " _)).
    rewrite count_joined_terms by reflexivity.
    rewrite keys_length. simpl. now rewrite Nat.add_0_r.
  - apply falsy_items in Tr. unfold Dict.len, Dict.keys. now rewrite Tr.
Qed.

Lemma run_build_count (b : build_call) :
  placeholder_count (fst (run_build b))
  = List.length (snd (run_build b))
    + list_sum (map placeholder_count (spliced_names b)).
Proof.
  destruct b as [table filters|table values|table values filters|table filters];
    cbn [run_build spliced_names map list_sum fold_right].
  - rewrite select_eq. cbn [fst snd].
    rewrite (count_after_separator "SELECT * FROM ") by reflexivity.
    rewrite count_after_name by apply optional_where_head.
    rewrite count_optional_where, values_length.
    fold (list_sum (map placeholder_count (Dict.keys filters))). lia.
  - rewrite insert_eq. cbn [fst snd].
    rewrite (count_after_separator "INSERT INTO ") by reflexivity.
    rewrite count_after_name by reflexivity.
    rewrite (count_after_separator " (") by reflexivity.
    rewrite count_joined_columns by reflexivity.
    rewrite (count_after_separator ") VALUES (") by reflexivity.
    rewrite count_joined_marks, keys_length, values_length.
    fold (list_sum (map placeholder_count (Dict.keys values))).
    simpl. lia.
  - rewrite update_eq. cbn [fst snd].
    rewrite (count_after_separator "UPDATE ") by reflexivity.
    rewrite count_after_name by reflexivity.
    rewrite (count_after_separator " SET ") by reflexivity.
    rewrite count_joined_terms by reflexivity.
    rewrite count_optional_where, keys_length, length_app, !values_length.
    fold (list_sum (map placeholder_count
                      (Dict.keys values ++ Dict.keys filters)%list)).
    rewrite map_app, list_sum_app. lia.
  - rewrite delete_eq. cbn [fst snd].
    rewrite (count_after_separator "DELETE FROM ") by reflexivity.
    rewrite count_after_name by apply optional_where_head.
    rewrite count_optional_where, values_length.
    fold (list_sum (map placeholder_count (Dict.keys filters))). lia.
Qed.

(** For every table and every maps, the number of [%s] in the string a
    builder returns is the number of arguments it returns plus the number
    of [%s] inside the table name and the keys: every name is spliced in
    once, and no placeholder is lost or formed where a name meets the
    surrounding text. *)
Theorem placeholders_of_query (b : build_call) :
  placeholder_count (fst (run_build b))
  = List.length (snd (run_build b))
    + list_sum (map placeholder_count (spliced_names b)).
Proof. apply run_build_count. Qed.

Lemma list_sum_zero (ns : list nat) :
  list_sum ns = 0 <-> Forall (fun n => n = 0) ns.
Proof.
  induction ns as [|n ns IH]; simpl.
  - split; auto.
  - split.
    + intros E. apply Nat.eq_add_0 in E as [E1 E2].
      constructor; [exact E1|now apply IH].
    + intros F. inversion F as [|n' ns' F1 F2]; subst.
      apply IH in F2. now rewrite F2.
Qed.

Lemma run_build_arity (b : build_call) :
  placeholder_count (fst (run_build b)) = List.length (snd (run_build b))
  <-> Forall clean (spliced_names b).
Proof.
  rewrite run_build_count. unfold clean.
  rewrite <- (Forall_map placeholder_count (fun n => n = 0)).
  rewrite <- list_sum_zero. lia.
Qed.

(** The returned string has as many placeholders as there are arguments if
    and only if neither the table name nor any key contains [%s]. *)
Theorem arity_iff_clean_names (b : build_call) :
  placeholder_count (fst (run_build b)) = List.length (snd (run_build b))
  <-> Forall clean (spliced_names b).
Proof. apply run_build_arity. Qed.

Lemma run_build_surplus (b : build_call) :
  ~ Forall clean (spliced_names b) ->
  List.length (snd (run_build b)) < placeholder_count (fst (run_build b)).
Proof.
  intros N. rewrite run_build_count.
  assert (list_sum (map placeholder_count (spliced_names b)) <> 0); [|lia].
  intros Z. apply N. apply list_sum_zero in Z.
  now apply Forall_map in Z.
Qed.

(** Binding the returned arguments to the placeholders of the returned
    string, one argument per placeholder from the left, succeeds if and
    only if neither the table name nor any key contains [%s]; otherwise
    the string has more placeholders than there are arguments and the
    binding fails. *)
Theorem binding_succeeds_iff_clean (b : build_call)
  (render : value -> string) :
  ((exists r, bind_args (fst (run_build b)) (map render (snd (run_build b)))
              = Some r)
   <-> Forall clean (spliced_names b))
  /\ (~ Forall clean (spliced_names b) ->
      List.length (snd (run_build b)) < placeholder_count (fst (run_build b))
      /\ bind_args (fst (run_build b)) (map render (snd (run_build b)))
         = None).
Proof.
  assert (B : forall r,
             bind_args (fst (run_build b)) (map render (snd (run_build b)))
             = Some r -> Forall clean (spliced_names b)).
  { intros r B. apply bind_args_count in B.
    rewrite length_map in B. now apply run_build_arity. }
  split; [split|].
  - intros [r E]. exact (B r E).
  - intros Cn. exists (inlined render b). now apply run_build_binds.
  - intros N. split; [now apply run_build_surplus|].
    destruct (bind_args (fst (run_build b)) (map render (snd (run_build b))))
      as [r|] eqn:E; [|reflexivity].
    exfalso. exact (N (B r eq_refl)).
Qed.

Lemma binding_succeeds_iff_clean_witness :
  1 < placeholder_count (fst (run_build (BuildDelete "T" d_percent_s)))
  /\ bind_args (fst (run_build (BuildDelete "T" d_percent_s)))
               (map render_sql (snd (run_build (BuildDelete "T" d_percent_s))))
     = None.
Proof.
  refine (proj2 (binding_succeeds_iff_clean
                   (BuildDelete "T" d_percent_s) render_sql) _).
  intros Cn. inversion Cn as [|t ks Ct Ck]. subst.
  inversion Ck as [|k ks' Ck1 Ck2]. discriminate Ck1.
Defined.

(** ** [build_select_query] on a non-empty filter map *)

(** C2, as the specification states it, fails: a key is spliced into the
    string unchanged, so the one-key map [{"%s": 1}] gives a string with
    two placeholders. *)
Lemma select_placeholder_in_key :
  Dict.items d_percent_s <> []
  /\ placeholder_count (fst (build_select_query "T" d_percent_s))
     <> Dict.len d_percent_s.
Proof. split; simpl; discriminate. Qed.

(** C2, amended: for a non-empty filter map, [build_select_query] returns
    [SELECT * FROM T WHERE k1 = %s AND k2 = %s ...]: one term [k = %s] per
    key, in iteration order, [len(filters)] terms joined by [" AND "], no
    [AND] at the end; the arguments are the values in the same order and
    there are [len(filters)] of them. The string has [len(filters)]
    placeholders plus those inside the table name and the keys: exactly
    [len(filters)] if and only if none of these names contains [%s]. *)
Theorem build_select_query_filters (table : string) (filters : KV) :
  Dict.items filters <> [] ->
  let terms := map placeholder_term (Dict.keys filters) in
  let q := fst (build_select_query table filters) in
  let val_ls := snd (build_select_query table filters) in
  q = "SELECT * FROM " ++ table ++ " WHERE " ++ join " AND " terms
  /\ List.length terms = Dict.len filters
  /\ (forall n k, nth_error (Dict.keys filters) n = Some k ->
                  nth_error terms n = Some (k ++ " = %s"))
  /\ ~ ends_with "AND" q
  /\ ~ ends_with " AND " q
  /\ val_ls = Dict.values filters
  /\ List.length val_ls = Dict.len filters
  /\ (forall n k v, nth_error (Dict.items filters) n = Some (k, v) ->
                    nth_error (Dict.keys filters) n = Some k
                    /\ nth_error val_ls n = Some v)
  /\ placeholder_count q
     = Dict.len filters
       + list_sum (map placeholder_count (table :: Dict.keys filters))
  /\ (placeholder_count q = Dict.len filters
      <-> Forall clean (table :: Dict.keys filters)).
Proof.
  intros NE terms q val_ls.
  pose proof (run_build_count (BuildSelect table filters)) as Cq.
  pose proof (run_build_arity (BuildSelect table filters)) as Aq.
  cbn [run_build spliced_names] in Cq, Aq.
  fold q in Cq, Aq. fold val_ls in Cq, Aq.
  assert (Eq : q = "SELECT * FROM " ++ table ++ where_template filters)
    by (subst q; now rewrite (select_filters_eq table filters NE)).
  assert (Ev : val_ls = Dict.values filters)
    by (subst val_ls; now rewrite (select_filters_eq table filters NE)).
  assert (Lv : List.length val_ls = Dict.len filters)
    by (rewrite Ev; apply values_length).
  rewrite Lv in Cq, Aq.
  assert (Q : ends_with " = %s" q).
  { rewrite Eq. apply (ends_with_prepend _ "SELECT * FROM ").
    apply ends_with_prepend. apply (ends_with_prepend _ " WHERE ").
    apply join_terms_ends. now apply keys_nonempty. }
  apply ends_with_placeholder_not_and in Q as [Q1 Q2].
  split; [exact Eq|]. split; [subst terms; rewrite length_map; apply keys_length|].
  split.
  { intros n k E. apply (map_nth_error placeholder_term) in E. exact E. }
  split; [exact Q1|]. split; [exact Q2|]. split; [exact Ev|].
  split; [exact Lv|]. split.
  { intros n k v E. rewrite Ev. now apply nth_items. }
  split; [exact Cq|exact Aq].
Qed.

Lemma build_select_query_filters_witness :
  fst (build_select_query "T" d_a1_b2)
  = "SELECT * FROM T WHERE a = %s AND b = %s"
  /\ placeholder_count (fst (build_select_query "T" d_a1_b2)) = 2.
Proof.
  pose proof (build_select_query_filters "T" d_a1_b2) as W.
  simpl in W.
  assert (NE : [("a", VInt 1); ("b", VInt 2)] <> @nil Dict.item)
    by discriminate.
  split.
  - exact (proj1 (W NE)).
  - apply (proj2 (proj2 (proj2 (proj2 (proj2 (proj2 (proj2 (proj2
             (proj2 (W NE)))))))))).
    repeat constructor.
Defined.

(** ** The wrappers on the driver *)

Section WrapperProperties.

Context {conn cursor error : Type} `{D : Driver conn cursor error}.

Lemma call_wrapper_eq (b : build_call) :
  call_wrapper b
  = execute_query (fst (run_build b)) (snd (run_build b)) (wants_rows b).
Proof.
  destruct b as [table filters|table values|table values filters|table filters];
    cbn [call_wrapper run_build wants_rows].
  - unfold select. now destruct (build_select_query table filters).
  - unfold insert. now destruct (build_insert_query table values).
  - unfold update. now destruct (build_update_query table values filters).
  - unfold delete. now destruct (build_delete_query table filters).
Qed.

(** [ret_result] decides what [execute_query] hands back and nothing else:
    with either value the same statement runs, the same error is raised
    or the connection is left in the same state. *)
Theorem ret_result_only_selects (query : string) (args : list value)
  (c : conn) :
  effect_of (execute_query query args true c)
  = effect_of (execute_query query args false c).
Proof.
  unfold execute_query, bind, get_cursor, execute, ret.
  now destruct (cursor_execute (conn_cursor c) query args c)
    as [e|[[n cur] c']].
Qed.

(** A wrapper runs one statement, the one its builder returns with the
    arguments its builder returns, on a cursor of the connection: when the
    driver runs it, [select] returns the fetched rows, [insert], [update]
    and [delete] return the driver's count, and the connection is left as
    the driver left it. *)
Theorem wrapper_runs_built_query (b : build_call) (c c' : conn) (n : Z)
  (cur : cursor) :
  cursor_execute (conn_cursor c) (fst (run_build b)) (snd (run_build b)) c
  = inr (n, cur, c') ->
  call_wrapper b c
  = inr (if wants_rows b then Rows (cursor_fetchall cur) else Count n, c').
Proof.
  intros E. rewrite call_wrapper_eq.
  unfold execute_query, bind, get_cursor, execute, ret.
  rewrite E. now destruct (wants_rows b).
Qed.

(** When the driver refuses the built statement, the wrapper raises the
    driver's error: none of the four catches it or returns a value. *)
Theorem wrapper_raises (b : build_call) (c : conn) (e : error) :
  cursor_execute (conn_cursor c) (fst (run_build b)) (snd (run_build b)) c
  = inl e ->
  call_wrapper b c = inl e.
Proof.
  intros E. rewrite call_wrapper_eq.
  unfold execute_query, bind, get_cursor, execute.
  now rewrite E.
Qed.

End WrapperProperties.

Lemma wrapper_runs_built_query_witness :
  call_wrapper (BuildUpdate "T" d_a1 d_b2) ([] : list Query)
  = inr (Count 0, [("UPDATE T SET a = %s WHERE b = %s", [VInt 1; VInt 2])]).
Proof.
  refine (wrapper_runs_built_query
            (BuildUpdate "T" d_a1 d_b2) [] _ 0%Z [d_a1] _).
  reflexivity.
Defined.

Lemma wrapper_raises_witness :
  call_wrapper (BuildSelect "%s" Dict.empty) ([] : list Query) = inl tt.
Proof.
  refine (wrapper_raises (BuildSelect "%s" Dict.empty) [] tt _).
  reflexivity.
Defined.
